(** * ProductionPlan: replace derived variable with query

  A shallow embedding of the two [ProductionPlan] classes of the
  repository ([src/single-source/index.js] and
  [src/multiple-sources/index.js]) and the properties of their
  [production] accessor and [applyAdjustment] mutator.

  JavaScript numbers are IEEE 754 binary64 values: they are modelled by
  Rocq's primitive floats, whose Leibniz equality is JavaScript's
  [Object.is] on numbers (one NaN, [+0] and [-0] distinct), which is
  also what the [toBe] matcher of the test suites compares with. *)

From Stdlib Require Import ZArith List Bool Lia Floats Permutation.
Import ListNotations.

Local Open Scope Z_scope.

(** ** The fragment of JavaScript the classes use *)

Module JS.

(** Primitive values on which the [+] operator is numeric addition
    (neither operand is a string or an object). *)
Inductive prim : Type :=
| Undefined
| Null
| Number (x : float).

(** Values passed to [applyAdjustment]: a primitive, or an object
    literal of which only the [amount] property is ever read (an absent
    property reads [undefined]). The classes never write to an
    adjustment, so an object is modelled by its content. *)
Inductive value : Type :=
| Prim (p : prim)
| Object (amount : prim).

Inductive error : Type :=
| TypeError.

(** Completion of an evaluation: a value or a thrown exception. *)
Inductive completion (A : Type) : Type :=
| Normal (a : A)
| Throw (e : error).
Arguments Normal {A} a.
Arguments Throw {A} e.

(** The abstract operation ToNumber on these primitives. *)
Definition ToNumber (p : prim) : float :=
  match p with
  | Undefined => nan
  | Null => 0%float
  | Number x => x
  end.

(** [a + b] on these primitives. *)
Definition add (a b : prim) : prim :=
  Number (ToNumber a + ToNumber b)%float.

(** [v.amount]: reading a property of [undefined] or [null] throws a
    TypeError; a number has no such property. *)
Definition get_amount (v : value) : completion prim :=
  match v with
  | Prim Undefined => Throw TypeError
  | Prim Null => Throw TypeError
  | Prim (Number _) => Normal Undefined
  | Object a => Normal a
  end.

(** The n-th actual argument of a call; a missing one is [undefined]. *)
Definition arg {A : Type} (undef : A) (n : nat) (args : list A) : A :=
  nth n args undef.

(** [Array.prototype.reduce] with an initial value: a left fold that
    stops at the first exception of the callback. *)
Fixpoint reduce {A B : Type} (f : B -> A -> completion B)
    (l : list A) (init : B) : completion B :=
  match l with
  | [] => Normal init
  | a :: l' =>
      match f init a with
      | Normal acc => reduce f l' acc
      | Throw e => Throw e
      end
  end.

(** Methods run against the receiver [this] of type [S]: they may read
    and write its fields and may throw; what was written before an
    exception stays written. *)
Definition M (S A : Type) : Type := S -> completion A * S.

Definition ret {S A : Type} (a : A) : M S A := fun this => (Normal a, this).

Definition bind {S A B : Type} (c : M S A) (k : A -> M S B) : M S B :=
  fun this =>
    match c this with
    | (Normal a, this') => k a this'
    | (Throw e, this') => (Throw e, this')
    end.

Definition lift {S A : Type} (c : completion A) : M S A := fun this => (c, this).

Definition get {S A : Type} (field : S -> A) : M S A :=
  fun this => (Normal (field this), this).

Definition modify {S : Type} (upd : S -> S) : M S unit :=
  fun this => (Normal tt, upd this).

Definition result {S A : Type} (c : M S A) (this : S) : completion A := fst (c this).
Definition exec {S A : Type} (c : M S A) (this : S) : S := snd (c this).

(** [n] consecutive evaluations of [c] on the same receiver: their
    completions in order, and the receiver afterwards. *)
Fixpoint repeat_call {S A : Type} (c : M S A) (n : nat) (this : S)
    : list (completion A) * S :=
  match n with
  | O => ([], this)
  | Datatypes.S n' =>
      let (r, this') := c this in
      let (rs, this'') := repeat_call c n' this' in
      (r :: rs, this'')
  end.

End JS.

Import JS.

Declare Scope js_scope.
Delimit Scope js_scope with js.
Notation "x <- c ;; k" := (bind c (fun x => k))
(at level 61, c at next level, right associativity) : js_scope.
Notation "c ;;; k" := (bind c (fun _ => k))
(at level 61, right associativity) : js_scope.
Local Open Scope js_scope.

(** An [Adjustment] as the data model declares it: a record with a numeric
  [amount]. *)
Record Adjustment : Type := { amount : float }.

(** The object literal [{ amount: x }]. *)
Definition obj (a : Adjustment) : value := Object (Number (amount a)).

(** The callback [(sum, a) => sum + a.amount] of both classes. *)
Definition sum_amount (sum : prim) (a : value) : completion prim :=
match get_amount a with
| Normal x => Normal (add sum x)
| Throw e => Throw e
end.

(** ** src/multiple-sources/index.js *)

Module Multiple.

Record ProductionPlan : Type := {
  _initialProduction : prim;
  _adjustments : list value
}.

(** [constructor(production)] *)
Definition constructor (args : list prim) : ProductionPlan :=
  let production := arg Undefined 0 args in
  {| _initialProduction := production; _adjustments := [] |}.

(** [get production()] *)
Definition production : M ProductionPlan prim :=
  init <- get _initialProduction ;;
  adjustments <- get _adjustments ;;
  sum <- lift (reduce sum_amount adjustments (Number 0)) ;;
  ret (add init sum).

(** [applyAdjustment(anAdjustment)] *)
Definition applyAdjustment (anAdjustment : value) : M ProductionPlan unit :=
  modify (fun this =>
    {| _initialProduction := _initialProduction this;
       _adjustments := _adjustments this ++ [anAdjustment] |}).

(** What a client can call on a plan, with arguments in the declared
    domain. *)
Inductive call : Type :=
| GetProduction
| ApplyAdjustment (a : Adjustment).

(** A call evaluates to the value read, or to [undefined] for the method
    that returns nothing. *)
Definition invoke (c : call) : M ProductionPlan prim :=
  match c with
  | GetProduction => production
  | ApplyAdjustment a => applyAdjustment (obj a) ;;; ret Undefined
  end.

(** The plan after a sequence of calls. *)
Definition after (cs : list call) (this : ProductionPlan) : ProductionPlan :=
  fold_left (fun p c => exec (invoke c) p) cs this.

(** The adjustments a sequence of calls applies, in order. *)
Fixpoint applied (cs : list call) : list Adjustment :=
  match cs with
  | [] => []
  | GetProduction :: cs' => applied cs'
  | ApplyAdjustment a :: cs' => a :: applied cs'
  end.

End Multiple.

(** ** src/single-source/index.js *)

Module Single.

Record ProductionPlan : Type := {
  _adjustments : list value;
  _production : prim
}.

(** [constructor()]: it declares no parameter, the actual arguments are
    not looked at. *)
Definition constructor (args : list value) : ProductionPlan :=
  {| _adjustments := []; _production := Number 0 |}.

(** [get production()] *)
Definition production : M ProductionPlan prim :=
  get _production.

(** [get calculatedProduction()] *)
Definition calculatedProduction : M ProductionPlan prim :=
  adjustments <- get _adjustments ;;
  lift (reduce sum_amount adjustments (Number 0)).

(** [applyAdjustment(anAdjustment)] *)
Definition applyAdjustment (anAdjustment : value) : M ProductionPlan unit :=
  modify (fun this =>
    {| _adjustments := _adjustments this ++ [anAdjustment];
       _production := _production this |}) ;;;
  old <- get _production ;;
  x <- lift (get_amount anAdjustment) ;;
  modify (fun this =>
    {| _adjustments := _adjustments this;
       _production := add old x |}).

Inductive call : Type :=
| GetProduction
| GetCalculatedProduction
| ApplyAdjustment (a : Adjustment).

Definition invoke (c : call) : M ProductionPlan prim :=
  match c with
  | GetProduction => production
  | GetCalculatedProduction => calculatedProduction
  | ApplyAdjustment a => applyAdjustment (obj a) ;;; ret Undefined
  end.

Definition after (cs : list call) (this : ProductionPlan) : ProductionPlan :=
  fold_left (fun p c => exec (invoke c) p) cs this.

Fixpoint applied (cs : list call) : list Adjustment :=
  match cs with
  | [] => []
  | ApplyAdjustment a :: cs' => a :: applied cs'
  | _ :: cs' => applied cs'
  end.

End Single.


(** ** Vocabulary of the specification *)

(** The sum of [amount] over a sequence of adjustments, taken in sequence
    order from 0 with the addition of numbers. *)
Definition sigma (l : list Adjustment) : float :=
  fold_left (fun s a => (s + amount a)%float) l 0%float.

(** The number that holds the integer [z] (exactly, up to 2^53). *)
Definition of_int (z : Z) : float :=
  match z with
  | Z0 => 0%float
  | Zpos p => of_uint63 (Uint63.of_Z (Zpos p))
  | Zneg p => (- of_uint63 (Uint63.of_Z (Zpos p)))%float
  end.

Definition int_adjustment (z : Z) : Adjustment := {| amount := of_int z |}.

(** Integer sums and the total magnitude of a baseline and its adjustments. *)
Definition Zsum (l : list Z) : Z := fold_right Z.add 0 l.
Definition magnitude (l : list Z) : Z := fold_right (fun x m => Z.abs x + m) 0 l.

(** Every partial sum of the baseline and the amounts is a safe integer:
    it lies strictly between -2^53 and 2^53. *)
Definition safe (init : Z) (l : list Z) : Prop :=
  Z.abs init + magnitude l < 2 ^ 53.

(** What [production] reads on a fresh plan to which the adjustments [l]
    have been applied in order: with baseline [init] in the
    multiple-sources class, and in the single-source class. *)
Definition multiple_production_of (init : float) (l : list Adjustment)
    : completion prim :=
  result Multiple.production
    (Multiple.after (map Multiple.ApplyAdjustment l)
       (Multiple.constructor [Number init])).

Definition single_production_of (l : list Adjustment) : completion prim :=
  result Single.production
    (Single.after (map Single.ApplyAdjustment l) (Single.constructor [])).

(** ** Binary64 representations of integers *)

(** The binary64 value of an integer, as the conversion from integers
    computes it. *)
Definition int_float (z : Z) : spec_float := binary_normalize prec emax z 0 false.

(** The canonical binary64 representation of the positive safe integer
    [q], with sign [s]. *)
Definition canonical_int (s : bool) (q : positive) : spec_float :=
  let d := Zpos (digits2_pos q) in
  S754_finite s (Z.to_pos (Zpos q * 2 ^ (53 - d))) (d - 53).

(** ** Arguments outside the declared domain *)

(** [undefined] and [null]: the values of which no property can be read. *)
Definition nullish (v : value) : bool :=
  match v with
  | Prim Undefined => true
  | Prim Null => true
  | _ => false
  end.

(** The number [v.amount] adds to a sum when reading it does not throw:
    the amount converted by ToNumber, NaN for an absent one. *)
Definition amount_number (v : value) : float :=
  match v with
  | Object a => ToNumber a
  | Prim _ => nan
  end.


(** The plan after [applyAdjustment] has been called with each of [vs]
    in order, by a client that catches what a call throws and goes on. *)
Definition multiple_apply_values (vs : list value)
    (this : Multiple.ProductionPlan) : Multiple.ProductionPlan :=
  fold_left (fun p v => exec (Multiple.applyAdjustment v) p) vs this.


(** An adjustment whose amount is [+0] or [-0]. *)
Definition zero_amount (a : Adjustment) : bool := is_zero (amount a).

(** ** Sequences of calls *)

Lemma fold_amounts_snoc (l : list Adjustment) (a : Adjustment) (s : float) :
  fold_left (fun s a => (s + amount a)%float) (l ++ [a]) s
  = (fold_left (fun s a => (s + amount a)%float) l s + amount a)%float.
Proof. now rewrite fold_left_app. Qed.

Lemma sigma_snoc (l : list Adjustment) (a : Adjustment) :
  sigma (l ++ [a]) = (sigma l + amount a)%float.
Proof. apply fold_amounts_snoc. Qed.

(** On object literals with numeric amounts, the reduction never throws
    and is the left-to-right sum. *)
Lemma reduce_sum_amount_obj (l : list Adjustment) (s : float) :
  reduce sum_amount (map obj l) (Number s)
  = Normal (Number (fold_left (fun s a => (s + amount a)%float) l s)).
Proof.
  revert s; induction l as [|a l IH]; intros s; simpl.
  - reflexivity.
  - apply IH.
Qed.

Lemma multiple_after_app (cs cs' : list Multiple.call) (p : Multiple.ProductionPlan) :
  Multiple.after (cs ++ cs') p = Multiple.after cs' (Multiple.after cs p).
Proof. apply fold_left_app. Qed.

Lemma single_after_app (cs cs' : list Single.call) (p : Single.ProductionPlan) :
  Single.after (cs ++ cs') p = Single.after cs' (Single.after cs p).
Proof. apply fold_left_app. Qed.

(** The state of a multiple-sources plan after any sequence of calls. *)
Lemma multiple_after_state (cs : list Multiple.call) (p : Multiple.ProductionPlan) :
  Multiple.after cs p
  = {| Multiple._initialProduction := Multiple._initialProduction p;
       Multiple._adjustments :=
         Multiple._adjustments p ++ map obj (Multiple.applied cs) |}.
Proof.
  revert p; induction cs as [|c cs IH]; intros [init adjs].
  - simpl. now rewrite app_nil_r.
  - destruct c as [|a].
    + change (Multiple.after (Multiple.GetProduction :: cs) ?q)
        with (Multiple.after cs (exec Multiple.production q)).
      unfold exec, Multiple.production, bind, get, lift, ret; simpl.
      destruct (reduce sum_amount adjs (Number 0)); simpl; apply IH.
    + change (Multiple.after (Multiple.ApplyAdjustment a :: cs) ?q)
        with (Multiple.after cs
                (exec (Multiple.invoke (Multiple.ApplyAdjustment a)) q)).
      rewrite IH. simpl. now rewrite <- app_assoc.
Qed.

(** The state of a single-source plan after any sequence of calls: the
    stored total has been incremented once per applied adjustment. *)
Lemma single_after_state (cs : list Single.call) (p : Single.ProductionPlan) :
  Single.after cs p
  = {| Single._adjustments :=
         Single._adjustments p ++ map obj (Single.applied cs);
       Single._production :=
         fold_left (fun s a => add s (Number (amount a)))
           (Single.applied cs) (Single._production p) |}.
Proof.
  revert p; induction cs as [|c cs IH]; intros [adjs prod].
  - simpl. now rewrite app_nil_r.
  - destruct c as [| |a].
    + apply IH.
    + change (Single.after (Single.GetCalculatedProduction :: cs) ?q)
        with (Single.after cs (exec Single.calculatedProduction q)).
      unfold exec, Single.calculatedProduction, bind, get, lift; simpl.
      apply IH.
    + change (Single.after (Single.ApplyAdjustment a :: cs) ?q)
        with (Single.after cs
                (exec (Single.invoke (Single.ApplyAdjustment a)) q)).
      rewrite IH. simpl. now rewrite <- app_assoc.
Qed.

Lemma fold_add_number (l : list Adjustment) (s : float) :
  fold_left (fun s a => add s (Number (amount a))) l (Number s)
  = Number (fold_left (fun s a => (s + amount a)%float) l s).
Proof.
  revert s; induction l as [|a l IH]; intros s; simpl.
  - reflexivity.
  - apply IH.
Qed.

Lemma multiple_production_eq (init : prim) (l : list Adjustment) :
  Multiple.production
    {| Multiple._initialProduction := init; Multiple._adjustments := map obj l |}
  = (Normal (add init (Number (sigma l))),
     {| Multiple._initialProduction := init; Multiple._adjustments := map obj l |}).
Proof.
  unfold Multiple.production, bind, get, lift, ret; simpl.
  now rewrite reduce_sum_amount_obj.
Qed.

Lemma multiple_production_after (args : list prim) (cs : list Multiple.call) :
  result Multiple.production (Multiple.after cs (Multiple.constructor args))
  = Normal (add (arg Undefined 0 args) (Number (sigma (Multiple.applied cs)))).
Proof.
  rewrite multiple_after_state. unfold result. simpl.
  now rewrite multiple_production_eq.
Qed.

Lemma single_production_after (args : list value) (cs : list Single.call) :
  result Single.production (Single.after cs (Single.constructor args))
  = Normal (Number (sigma (Single.applied cs))).
Proof.
  rewrite single_after_state. unfold result. simpl.
  now rewrite fold_add_number.
Qed.

(** ** Binary64 arithmetic *)

Lemma Prim2SF_zero : Prim2SF 0 = S754_zero false.
Proof. reflexivity. Qed.

(** [x + 0] is [x], except that [-0 + 0] is [+0]. *)
Lemma float_add_zero_r (x : float) : x <> neg_zero -> (x + 0)%float = x.
Proof.
  intros Hx. apply Prim2SF_inj. rewrite add_spec, Prim2SF_zero.
  destruct (Prim2SF x) as [s|s| |s m e] eqn:E; try reflexivity.
  destruct s; try reflexivity.
  exfalso. apply Hx. apply Prim2SF_inj. now rewrite E.
Qed.

Lemma digits2_pos_size (p : positive) : digits2_pos p = Pos.size p.
Proof. induction p as [p IH|p IH|]; simpl; now rewrite ?IH. Qed.

Lemma digits2_pos_log2 (p : positive) :
  Zpos (digits2_pos p) = Z.log2 (Zpos p) + 1.
Proof.
  rewrite digits2_pos_size. destruct p as [p|p|]; simpl; lia.
Qed.

Lemma digits2_pos_scaled (m q : positive) (k : Z) :
  0 <= k -> Zpos m = Zpos q * 2 ^ k ->
  Zpos (digits2_pos m) = Zpos (digits2_pos q) + k.
Proof.
  intros Hk Hm. rewrite !digits2_pos_log2, Hm.
  rewrite Z.log2_mul_pow2 by lia. lia.
Qed.

Lemma digits2_pos_safe (q : positive) :
  Zpos q < 2 ^ 53 -> 1 <= Zpos (digits2_pos q) <= 53.
Proof.
  intros Hq. rewrite digits2_pos_log2.
  assert (0 <= Z.log2 (Zpos q)) by apply Z.log2_nonneg.
  assert (Z.log2 (Zpos q) < 53) by (apply Z.log2_lt_pow2; lia).
  lia.
Qed.

Lemma iter_pos_nat_iter {A : Type} (f : A -> A) (p : positive) (x : A) :
  iter_pos f p x = Nat.iter (Pos.to_nat p) f x.
Proof.
  revert x; induction p as [p IH|p IH|]; intros x.
  - change (iter_pos f p~1 x) with (iter_pos f p (iter_pos f p (f x))).
    rewrite !IH, Pos2Nat.inj_xI.
    replace (S (2 * Pos.to_nat p)) with (Pos.to_nat p + (Pos.to_nat p + 1))%nat by lia.
    rewrite !Nat.iter_add. reflexivity.
  - change (iter_pos f p~0 x) with (iter_pos f p (iter_pos f p x)).
    rewrite !IH, Pos2Nat.inj_xO.
    replace (2 * Pos.to_nat p)%nat with (Pos.to_nat p + Pos.to_nat p)%nat by lia.
    rewrite Nat.iter_add. reflexivity.
  - reflexivity.
Qed.

Lemma nat_iter_xO (k : nat) (q : positive) :
  Zpos (Nat.iter k xO q) = Zpos q * 2 ^ Z.of_nat k.
Proof.
  induction k as [|k IH].
  - simpl. lia.
  - rewrite Nat2Z.inj_succ, Z.pow_succ_r by lia.
    change (Nat.iter (S k) xO q) with (xO (Nat.iter k xO q)).
    rewrite Pos2Z.inj_xO, IH. ring.
Qed.

Lemma nat_iter_shr_1 (k : nat) (q : positive) :
  Nat.iter k shr_1 (Build_shr_record (Zpos (Nat.iter k xO q)) false false)
  = Build_shr_record (Zpos q) false false.
Proof.
  revert q; induction k as [|k IH]; intros q.
  - reflexivity.
  - rewrite (Nat.iter_succ_r k positive xO).
    change (Nat.iter (S k) shr_1 ?r) with (shr_1 (Nat.iter k shr_1 r)).
    rewrite IH. reflexivity.
Qed.

(** Shifting out zero bits is exact. *)
Lemma shr_exact (m q t : positive) (e : Z) :
  Zpos m = Zpos q * 2 ^ Zpos t ->
  shr (Build_shr_record (Zpos m) false false) e (Zpos t)
  = (Build_shr_record (Zpos q) false false, e + Zpos t).
Proof.
  intros Hm. unfold shr. f_equal.
  rewrite iter_pos_nat_iter.
  assert (m = Nat.iter (Pos.to_nat t) xO q) as ->.
  { apply Pos2Z.inj. rewrite nat_iter_xO, positive_nat_Z. exact Hm. }
  apply nat_iter_shr_1.
Qed.

Lemma shl_align_fst (mx : positive) (ex ez : Z) :
  ez <= ex ->
  Zpos (fst (shl_align mx ex ez)) = Zpos mx * 2 ^ (ex - ez).
Proof.
  intros Hle. unfold shl_align.
  destruct (ez - ex) as [|d|d] eqn:E; cbn [fst].
  - replace (ex - ez) with 0 by lia. lia.
  - lia.
  - replace (ex - ez) with (Zpos d) by lia.
    change (Pos.iter xO mx d) with (shift_pos d mx).
    rewrite shift_pos_correct, Z.pow_pos_fold. ring.
Qed.

Lemma fexp_binary64 (e : Z) : fexp prec emax e = Z.max (e - 53) (-1074).
Proof. reflexivity. Qed.

(** Rounding a mantissa that already has its canonical exponent. *)
Lemma binary_round_aux_canonical (s : bool) (m : positive) (e : Z) :
  fexp prec emax (Zpos (digits2_pos m) + e) = e -> e <= 971 ->
  binary_round_aux prec emax s (Zpos m) e loc_Exact = S754_finite s m e.
Proof.
  intros Hc He. unfold binary_round_aux, shr_fexp.
  cbn [Zdigits2 shr_record_of_loc]. rewrite Hc, Z.sub_diag.
  cbn [shr shr_m loc_of_shr_record round_nearest_even Zdigits2 shr_record_of_loc].
  rewrite Hc, Z.sub_diag. cbn [shr shr_m].
  replace (e <=? emax - prec) with true; [reflexivity|].
  symmetry. apply Z.leb_le. change (emax - prec) with 971. exact He.
Qed.

(** Rounding [m * 2^e] is exact when it is a safe integer [q]. *)
Lemma binary_round_exact (s : bool) (m q : positive) (k : Z) :
  0 <= k -> Zpos m = Zpos q * 2 ^ k -> Zpos q < 2 ^ 53 ->
  binary_round prec emax s m (- k) = canonical_int s q.
Proof.
  intros Hk Hm Hq. unfold binary_round, canonical_int.
  pose proof (digits2_pos_safe q Hq) as Hd.
  pose proof (digits2_pos_scaled m q k Hk Hm) as HD.
  set (d := Zpos (digits2_pos q)) in *.
  assert (Hf : fexp prec emax (Zpos (digits2_pos m) + - k) = d - 53).
  { rewrite fexp_binary64, HD. lia. }
  rewrite Hf.
  assert (Hpos : 0 < Zpos q * 2 ^ (53 - d)).
  { apply Z.mul_pos_pos; [lia|]. apply Z.pow_pos_nonneg; lia. }
  assert (Hcanon : forall mz : positive,
            Zpos mz = Zpos q * 2 ^ (53 - d) ->
            binary_round_aux prec emax s (Zpos mz) (d - 53) loc_Exact
            = S754_finite s (Z.to_pos (Zpos q * 2 ^ (53 - d))) (d - 53)).
  { intros mz Hmz. rewrite <- Hmz, Pos2Z.id.
    apply binary_round_aux_canonical; [|lia].
    rewrite fexp_binary64.
    rewrite (digits2_pos_scaled mz q (53 - d)) by (lia || exact Hmz).
    fold d. lia. }
  unfold shl_align.
  destruct (d - 53 - - k) as [|t|t] eqn:E.
  - replace (- k) with (d - 53) by lia.
    apply Hcanon. rewrite Hm. f_equal. f_equal. lia.
  - (* the mantissa carries [t] zero bits too many *)
    unfold binary_round_aux, shr_fexp.
    cbn [Zdigits2 shr_record_of_loc]. rewrite Hf.
    replace (d - 53 - - k) with (Zpos t) by lia.
    assert (Hq' : exists q' : positive, Zpos q' = Zpos q * 2 ^ (53 - d)).
    { exists (Z.to_pos (Zpos q * 2 ^ (53 - d))). rewrite Z2Pos.id; lia. }
    destruct Hq' as [q' Hq'].
    rewrite (shr_exact m q' t).
    2:{ rewrite Hm, Hq', <- Z.mul_assoc, <- Z.pow_add_r by lia.
        f_equal. f_equal. lia. }
    cbn [shr_m loc_of_shr_record round_nearest_even].
    replace (- k + Zpos t) with (d - 53) by lia.
    cbn [Zdigits2].
    rewrite (digits2_pos_scaled q' q (53 - d)) by (lia || exact Hq').
    fold d. rewrite fexp_binary64.
    replace (Z.max (d + (53 - d) + (d - 53) - 53) (-1074) - (d - 53)) with 0 by lia.
    cbn [shr shr_m].
    replace (d - 53 <=? emax - prec) with true.
    + rewrite <- Hq', Pos2Z.id. reflexivity.
    + symmetry. apply Z.leb_le. change (emax - prec) with 971. lia.
  - apply Hcanon.
    change (Pos.iter xO m t) with (shift_pos t m).
    rewrite shift_pos_correct, Z.pow_pos_fold, Hm.
    rewrite Z.mul_comm, <- Z.mul_assoc, <- Z.pow_add_r by lia.
    f_equal. f_equal. lia.
Qed.

Lemma binary_normalize_scaled (z k : Z) :
  0 <= k -> Z.abs z < 2 ^ 53 ->
  binary_normalize prec emax (z * 2 ^ k) (- k) false = int_float z.
Proof.
  intros Hk Hz.
  assert (H2 : 0 < 2 ^ k) by (apply Z.pow_pos_nonneg; lia).
  destruct z as [|q|q].
  - reflexivity.
  - destruct (Zpos q * 2 ^ k) as [|m|m] eqn:E; try lia.
    unfold int_float, binary_normalize.
    rewrite (binary_round_exact false m q k) by (lia || (symmetry; exact E)).
    change 0 with (- 0) at 1.
    rewrite (binary_round_exact false q q 0); (reflexivity || lia).
  - destruct (Zneg q * 2 ^ k) as [|m|m] eqn:E; try lia.
    unfold int_float, binary_normalize.
    rewrite (binary_round_exact true m q k) by lia.
    change 0 with (- 0) at 1.
    rewrite (binary_round_exact true q q 0); (reflexivity || lia).
Qed.

Lemma int_float_nonzero (z : Z) :
  z <> 0 -> Z.abs z < 2 ^ 53 ->
  int_float z = canonical_int (z <? 0) (Z.to_pos (Z.abs z)).
Proof.
  intros Hnz Hz. destruct z as [|q|q].
  - now elim Hnz.
  - unfold int_float, binary_normalize. change 0 with (- 0) at 1.
    rewrite (binary_round_exact false q q 0); (reflexivity || lia).
  - unfold int_float, binary_normalize. change 0 with (- 0) at 1.
    rewrite (binary_round_exact true q q 0); (reflexivity || lia).
Qed.

Lemma canonical_int_value (s : bool) (q : positive) :
  Zpos q < 2 ^ 53 ->
  let d := Zpos (digits2_pos q) in
  Zpos (Z.to_pos (Zpos q * 2 ^ (53 - d))) = Zpos q * 2 ^ (53 - d).
Proof.
  intros Hq d. pose proof (digits2_pos_safe q Hq).
  rewrite Z2Pos.id; [reflexivity|].
  apply Z.mul_pos_pos; [lia|]. apply Z.pow_pos_nonneg; lia.
Qed.

(** Binary64 addition of two safe integers whose sum is safe is exact. *)
Lemma SF64add_int (x y : Z) :
  Z.abs x < 2 ^ 53 -> Z.abs y < 2 ^ 53 -> Z.abs (x + y) < 2 ^ 53 ->
  SF64add (int_float x) (int_float y) = int_float (x + y).
Proof.
  intros Hx Hy Hxy.
  destruct (Z.eq_dec x 0) as [->|Hx0].
  { destruct (Z.eq_dec y 0) as [->|Hy0]; [reflexivity|].
    rewrite Z.add_0_l, (int_float_nonzero y) by assumption. reflexivity. }
  destruct (Z.eq_dec y 0) as [->|Hy0].
  { rewrite Z.add_0_r, (int_float_nonzero x) by assumption. reflexivity. }
  rewrite (int_float_nonzero x), (int_float_nonzero y) by assumption.
  set (qx := Z.to_pos (Z.abs x)). set (qy := Z.to_pos (Z.abs y)).
  assert (Hqx : Zpos qx = Z.abs x) by (unfold qx; rewrite Z2Pos.id; lia).
  assert (Hqy : Zpos qy = Z.abs y) by (unfold qy; rewrite Z2Pos.id; lia).
  pose proof (digits2_pos_safe qx ltac:(lia)) as Hdx.
  pose proof (digits2_pos_safe qy ltac:(lia)) as Hdy.
  pose proof (canonical_int_value false qx ltac:(lia)) as Hvx.
  pose proof (canonical_int_value false qy ltac:(lia)) as Hvy.
  unfold canonical_int, SF64add, SFadd. cbv zeta in Hvx, Hvy |- *.
  set (dx := Zpos (digits2_pos qx)) in *.
  set (dy := Zpos (digits2_pos qy)) in *.
  set (ez := Z.min (dx - 53) (dy - 53)).
  rewrite !shl_align_fst by (unfold ez; lia).
  rewrite Hvx, Hvy.
  assert (Hez : 0 <= - ez) by (unfold ez; lia).
  replace (Zpos qx * 2 ^ (53 - dx) * 2 ^ (dx - 53 - ez)) with (Zpos qx * 2 ^ (- ez)).
  2:{ rewrite <- Z.mul_assoc, <- Z.pow_add_r by lia. f_equal. f_equal. lia. }
  replace (Zpos qy * 2 ^ (53 - dy) * 2 ^ (dy - 53 - ez)) with (Zpos qy * 2 ^ (- ez)).
  2:{ rewrite <- Z.mul_assoc, <- Z.pow_add_r by lia. f_equal. f_equal. lia. }
  replace (cond_Zopp (x <? 0) (Zpos qx * 2 ^ (- ez))
           + cond_Zopp (y <? 0) (Zpos qy * 2 ^ (- ez)))
    with ((x + y) * 2 ^ (- ez)).
  2:{ rewrite Hqx, Hqy. unfold cond_Zopp.
      destruct (Z.ltb_spec x 0), (Z.ltb_spec y 0); nia. }
  replace ez with (- (- ez)) at 2 by lia.
  apply binary_normalize_scaled; assumption.
Qed.

Lemma Prim2SF_of_int (z : Z) :
  Z.abs z < 2 ^ 53 -> Prim2SF (of_int z) = int_float z.
Proof.
  intros Hz.
  assert (Hpos : forall p : positive, Zpos p < 2 ^ 53 ->
            Prim2SF (of_uint63 (Uint63.of_Z (Zpos p))) = int_float (Zpos p)).
  { intros p Hp. rewrite of_uint63_spec, Uint63.of_Z_spec.
    rewrite Z.mod_small; [reflexivity|].
    split; [lia|]. apply Z.lt_trans with (2 ^ 53); [exact Hp|reflexivity]. }
  destruct z as [|p|p].
  - reflexivity.
  - apply Hpos. exact Hz.
  - unfold of_int. rewrite opp_spec, Hpos by exact Hz.
    rewrite (int_float_nonzero (Zpos p)), (int_float_nonzero (Zneg p)) by (lia || exact Hz).
    reflexivity.
Qed.

(** Addition of numbers holding safe integers whose sum is safe. *)
Lemma of_int_add (x y : Z) :
  Z.abs x < 2 ^ 53 -> Z.abs y < 2 ^ 53 -> Z.abs (x + y) < 2 ^ 53 ->
  (of_int x + of_int y)%float = of_int (x + y).
Proof.
  intros Hx Hy Hxy. apply Prim2SF_inj.
  rewrite add_spec, !Prim2SF_of_int by assumption.
  apply SF64add_int; assumption.
Qed.

Lemma magnitude_nonneg (l : list Z) : 0 <= magnitude l.
Proof. induction l as [|x l IH]; simpl; lia. Qed.

Lemma Zsum_magnitude (l : list Z) : Z.abs (Zsum l) <= magnitude l.
Proof. induction l as [|x l IH]; simpl; lia. Qed.

(** A running sum of safe integers that stays safe is the integer sum. *)
Lemma fold_amounts_int (l : list Z) (z : Z) :
  Z.abs z + magnitude l < 2 ^ 53 ->
  fold_left (fun s a => (s + amount a)%float) (map int_adjustment l) (of_int z)
  = of_int (z + Zsum l).
Proof.
  revert z; induction l as [|x l IH]; intros z Hz; simpl in *.
  - now rewrite Z.add_0_r.
  - pose proof (magnitude_nonneg l).
    rewrite of_int_add by lia. rewrite IH by lia. f_equal. lia.
Qed.

Lemma sigma_int (l : list Z) :
  magnitude l < 2 ^ 53 -> sigma (map int_adjustment l) = of_int (Zsum l).
Proof.
  intros Hl. unfold sigma. change 0%float with (of_int 0).
  rewrite fold_amounts_int by (simpl; lia). reflexivity.
Qed.

Lemma Zsum_permutation (l1 l2 : list Z) :
  Permutation l1 l2 -> Zsum l1 = Zsum l2.
Proof. induction 1; simpl; lia. Qed.

Lemma magnitude_permutation (l1 l2 : list Z) :
  Permutation l1 l2 -> magnitude l1 = magnitude l2.
Proof. induction 1; simpl; lia. Qed.

Lemma multiple_applied_map (l : list Adjustment) :
  Multiple.applied (map Multiple.ApplyAdjustment l) = l.
Proof. induction l as [|a l IH]; simpl; now rewrite ?IH. Qed.

Lemma single_applied_map (l : list Adjustment) :
  Single.applied (map Single.ApplyAdjustment l) = l.
Proof. induction l as [|a l IH]; simpl; now rewrite ?IH. Qed.

(** What both classes read after integer adjustments within the safe
    range: the number holding the exact integer total. *)
Lemma production_of_safe_integers (init : Z) (l : list Z) :
  safe init l ->
  multiple_production_of (of_int init) (map int_adjustment l)
  = Normal (Number (of_int (init + Zsum l)))
  /\
  single_production_of (map int_adjustment l)
  = Normal (Number (of_int (Zsum l))).
Proof.
  unfold safe, multiple_production_of, single_production_of. intros Hs.
  pose proof (magnitude_nonneg l). pose proof (Zsum_magnitude l).
  rewrite multiple_production_after, single_production_after.
  rewrite multiple_applied_map, single_applied_map.
  rewrite sigma_int by lia. split; [|reflexivity].
  unfold add, arg. simpl. now rewrite of_int_add by lia.
Qed.

(** ** Sums never are [-0] *)

Lemma shr_1_digits (p : positive) (r s : bool) :
  1 < Zpos (digits2_pos p) ->
  exists (p' : positive) (r' s' : bool),
    shr_1 (Build_shr_record (Zpos p) r s) = Build_shr_record (Zpos p') r' s'
    /\ Zpos (digits2_pos p') = Zpos (digits2_pos p) - 1.
Proof.
  intros Hp. destruct p as [p|p|].
  - exists p, true, (r || s)%bool. split; [reflexivity|].
    cbn [digits2_pos]. rewrite Pos2Z.inj_succ. lia.
  - exists p, false, (r || s)%bool. split; [reflexivity|].
    cbn [digits2_pos]. rewrite Pos2Z.inj_succ. lia.
  - cbn [digits2_pos] in Hp. lia.
Qed.

Lemma nat_iter_shr_1_digits (k : nat) (p : positive) (r s : bool) :
  Z.of_nat k < Zpos (digits2_pos p) ->
  exists (p' : positive) (r' s' : bool),
    Nat.iter k shr_1 (Build_shr_record (Zpos p) r s)
    = Build_shr_record (Zpos p') r' s'
    /\ Zpos (digits2_pos p') = Zpos (digits2_pos p) - Z.of_nat k.
Proof.
  revert p r s; induction k as [|k IH]; intros p r s Hk.
  - exists p, r, s. split; [reflexivity|]. simpl. lia.
  - rewrite Nat.iter_succ_r.
    destruct (shr_1_digits p r s) as (p1 & r1 & s1 & E1 & D1); [lia|].
    rewrite E1.
    destruct (IH p1 r1 s1) as (p' & r' & s' & E & D); [lia|].
    exists p', r', s'. split; [exact E|]. lia.
Qed.

(** Shifting by fewer bits than the mantissa has leaves a positive
    mantissa. *)
Lemma shr_digits (p : positive) (r s : bool) (e n : Z) :
  n < Zpos (digits2_pos p) ->
  exists (p' : positive) (r' s' : bool),
    shr (Build_shr_record (Zpos p) r s) e n
    = (Build_shr_record (Zpos p') r' s', e + Z.max n 0)
    /\ Zpos (digits2_pos p') = Zpos (digits2_pos p) - Z.max n 0.
Proof.
  intros Hn. destruct n as [|t|t].
  - exists p, r, s. split; [simpl; f_equal; lia|]. simpl. lia.
  - destruct (nat_iter_shr_1_digits (Pos.to_nat t) p r s) as (p' & r' & s' & E & D).
    { rewrite positive_nat_Z. exact Hn. }
    exists p', r', s'. unfold shr. rewrite iter_pos_nat_iter, E.
    rewrite positive_nat_Z in D. split; [f_equal; lia|lia].
  - exists p, r, s. split; [simpl; f_equal; lia|]. simpl. lia.
Qed.

Lemma round_nearest_even_pos (p : positive) (l : location) :
  exists p' : positive, round_nearest_even (Zpos p) l = Zpos p'.
Proof.
  destruct l as [|[| |]]; simpl; eauto.
  destruct p; simpl; eauto.
Qed.

(** Rounding a positive mantissa whose exponent is at least [emin] gives
    a finite number or an infinity, never a zero. *)
Lemma binary_round_aux_nonzero (s : bool) (m : positive) (e : Z) :
  -1074 <= e ->
  (exists (m' : positive) (e' : Z),
     binary_round_aux prec emax s (Zpos m) e loc_Exact = S754_finite s m' e')
  \/ binary_round_aux prec emax s (Zpos m) e loc_Exact = S754_infinity s.
Proof.
  intros He. unfold binary_round_aux, shr_fexp.
  cbn [Zdigits2 shr_record_of_loc].
  destruct (shr_digits m false false e
              (fexp prec emax (Zpos (digits2_pos m) + e) - e))
    as (p1 & r1 & s1 & E1 & D1).
  { rewrite fexp_binary64. lia. }
  rewrite E1. cbn [shr_m].
  destruct (round_nearest_even_pos p1
              (loc_of_shr_record (Build_shr_record (Zpos p1) r1 s1)))
    as (p2 & E2).
  rewrite E2. cbn [Zdigits2 shr_record_of_loc].
  set (e1 := e + Z.max (fexp prec emax (Zpos (digits2_pos m) + e) - e) 0).
  destruct (shr_digits p2 false false e1
              (fexp prec emax (Zpos (digits2_pos p2) + e1) - e1))
    as (p3 & r3 & s3 & E3 & D3).
  { rewrite fexp_binary64. unfold e1. lia. }
  rewrite E3. cbn [shr_m].
  destruct (_ <=? emax - prec); [left; eauto | right; reflexivity].
Qed.

Lemma binary_round_nonzero (s s' : bool) (m : positive) (e : Z) :
  -1074 <= e -> binary_round prec emax s m e <> S754_zero s'.
Proof.
  intros He. unfold binary_round, shl_align.
  assert (Hf : -1074 <= fexp prec emax (Zpos (digits2_pos m) + e)).
  { rewrite fexp_binary64. lia. }
  destruct (_ - e) as [|t|t].
  - destruct (binary_round_aux_nonzero s m e He) as [(m' & e' & ->)| ->];
      discriminate.
  - destruct (binary_round_aux_nonzero s m e He) as [(m' & e' & ->)| ->];
      discriminate.
  - destruct (binary_round_aux_nonzero s (Pos.iter xO m t) _ Hf)
      as [(m' & e' & ->)| ->]; discriminate.
Qed.

Lemma valid_binary_exponent (s : bool) (m : positive) (e : Z) :
  valid_binary (S754_finite s m e) = true -> -1074 <= e.
Proof.
  unfold SpecFloat.valid_binary, bounded, canonical_mantissa.
  intros H. apply andb_true_iff in H as [H _]. apply Z.eqb_eq in H.
  rewrite fexp_binary64 in H. lia.
Qed.

Lemma SF64add_neg_zero (x y : spec_float) :
  valid_binary x = true -> valid_binary y = true ->
  x <> S754_zero true -> SF64add x y <> S754_zero true.
Proof.
  intros Vx Vy Hx.
  destruct x as [[|]|[|]| |sx mx ex], y as [[|]|[|]| |sy my ey];
    try (simpl; congruence).
  unfold SF64add, SFadd.
  apply valid_binary_exponent in Vx, Vy.
  set (ez := Z.min ex ey).
  assert (Hez : -1074 <= ez) by (unfold ez; lia).
  destruct (_ + _) as [|m|m]; simpl.
  - discriminate.
  - now apply binary_round_nonzero.
  - now apply binary_round_nonzero.
Qed.

Lemma float_add_neg_zero (x y : float) :
  x <> neg_zero -> (x + y)%float <> neg_zero.
Proof.
  intros Hx H. apply (f_equal Prim2SF) in H. rewrite add_spec in H.
  revert H. apply SF64add_neg_zero; try apply Prim2SF_valid.
  intros E. apply Hx, Prim2SF_inj. exact E.
Qed.

Lemma zero_neq_neg_zero : 0%float <> neg_zero.
Proof.
  intros H. apply (f_equal Prim2SF) in H. discriminate.
Qed.

(** A sum taken from [+0] is never [-0]. *)
Lemma sigma_neq_neg_zero (l : list Adjustment) : sigma l <> neg_zero.
Proof.
  induction l as [|a l IH] using rev_ind.
  - apply zero_neq_neg_zero.
  - rewrite sigma_snoc. now apply float_add_neg_zero.
Qed.

Lemma float_add_zero_l (x : float) : x <> neg_zero -> (0 + x)%float = x.
Proof.
  intros Hx. apply Prim2SF_inj. rewrite add_spec, Prim2SF_zero.
  destruct (Prim2SF x) as [s|s| |s m e] eqn:E; try reflexivity.
  destruct s; try reflexivity.
  exfalso. apply Hx. apply Prim2SF_inj. now rewrite E.
Qed.

Lemma zero_plus_sigma (l : list Adjustment) : (0 + sigma l)%float = sigma l.
Proof. apply float_add_zero_l, sigma_neq_neg_zero. Qed.

(** ** Construction *)

Lemma Number_inj (x y : float) : Number x = Number y -> x = y.
Proof. intros H. exact (f_equal ToNumber H). Qed.

Lemma Normal_inj {A : Type} (a b : A) : Normal a = Normal b -> a = b.
Proof.
  intros H.
  exact (f_equal (fun c => match c with Normal v => v | Throw _ => a end) H).
Qed.

Lemma nan_neq_zero : nan <> 0%float.
Proof.
  intros H. apply (f_equal is_nan) in H. vm_compute in H. discriminate.
Qed.

(** C2, as stated, fails for the multiple-sources class: its constructor
    has no default, [new ProductionPlan()] stores [undefined] and
    [production] reads [undefined + 0], which is NaN. *)
Lemma multiple_omitted_baseline_not_zero :
  result Multiple.production (Multiple.constructor []) <> Normal (Number 0).
Proof.
  intros H. apply Normal_inj, Number_inj in H. now apply nan_neq_zero.
Qed.

(** C2, amended. [new ProductionPlan()] reads 0 in the single-source
    class; in the multiple-sources class the baseline is the argument as
    passed, [undefined] when omitted, and a fresh plan then reads NaN; it
    reads 0 when 0 is passed. *)
Theorem production_of_plan_without_argument :
  result Single.production (Single.constructor []) = Normal (Number 0)
  /\ Multiple._initialProduction (Multiple.constructor []) = Undefined
  /\ result Multiple.production (Multiple.constructor []) = Normal (Number nan)
  /\ result Multiple.production (Multiple.constructor [Number 0]) = Normal (Number 0).
Proof. repeat split. Qed.

(** C10. The single-source constructor does not look at its arguments:
    whatever is passed, the plan is the one [new ProductionPlan()] builds
    and its [production] reads 0. *)
Theorem single_constructor_ignores_arguments (args : list value) :
  Single.constructor args = Single.constructor []
  /\ result Single.production (Single.constructor args) = Normal (Number 0).
Proof. split; reflexivity. Qed.

(** ** applyAdjustment *)

(** C3, as stated, fails for the single-source class: applying
    [{ amount: 10 }] to a fresh plan also changes the stored
    [_production], from 0 to 10. *)
Lemma single_applyAdjustment_writes_production :
  let p := Single.constructor [] in
  let p' := exec (Single.applyAdjustment (obj {| amount := 10 |})) p in
  Single._production p = Number 0
  /\ Single._production p' = Number 10
  /\ Single._production p' <> Single._production p.
Proof.
  repeat split. intros H. apply Number_inj in H.
  apply (f_equal (fun x => PrimFloat.eqb x 0)) in H. vm_compute in H.
  discriminate.
Qed.

(** C3, amended. [applyAdjustment] returns normally and appends its
    argument at the end of the adjustments, which are otherwise kept as
    they are. The multiple-sources class changes nothing else; the
    single-source class also adds the amount to the stored [_production],
    and changes nothing else. *)
Theorem applyAdjustment_appends :
  (forall (p : Multiple.ProductionPlan) (a : value),
     Multiple.applyAdjustment a p
     = (Normal tt,
        {| Multiple._initialProduction := Multiple._initialProduction p;
           Multiple._adjustments := Multiple._adjustments p ++ [a] |}))
  /\
  (forall (p : Single.ProductionPlan) (a : Adjustment),
     Single.applyAdjustment (obj a) p
     = (Normal tt,
        {| Single._adjustments := Single._adjustments p ++ [obj a];
           Single._production :=
             add (Single._production p) (Number (amount a)) |})).
Proof. split; intros p a; reflexivity. Qed.

(** Appending at the end: one more element, the earlier ones in place. *)
Lemma applyAdjustment_length_prefix :
  (forall (p : Multiple.ProductionPlan) (a : value),
     let adjs := Multiple._adjustments p in
     let adjs' := Multiple._adjustments (exec (Multiple.applyAdjustment a) p) in
     length adjs' = S (length adjs)
     /\ firstn (length adjs) adjs' = adjs
     /\ nth_error adjs' (length adjs) = Some a)
  /\
  (forall (p : Single.ProductionPlan) (a : value),
     let adjs := Single._adjustments p in
     let adjs' := Single._adjustments (exec (Single.applyAdjustment a) p) in
     length adjs' = S (length adjs)
     /\ firstn (length adjs) adjs' = adjs
     /\ nth_error adjs' (length adjs) = Some a).
Proof.
  assert (snoc : forall (l : list value) (a : value),
            length (l ++ [a]) = S (length l)
            /\ firstn (length l) (l ++ [a]) = l
            /\ nth_error (l ++ [a]) (length l) = Some a).
  { intros l a. repeat split.
    - rewrite length_app. simpl. lia.
    - rewrite firstn_app, Nat.sub_diag, firstn_all. simpl. apply app_nil_r.
    - rewrite nth_error_app2, Nat.sub_diag by lia. reflexivity. }
  split; intros p a; simpl.
  - apply snoc.
  - unfold exec, Single.applyAdjustment, bind, modify, get, lift; simpl.
    destruct (get_amount a); simpl; apply snoc.
Qed.

(** An argument outside the declared domain does reach the error branch:
    [applyAdjustment(undefined)] throws in the single-source class, after
    the push; in the multiple-sources class it is the next read that
    throws. *)
Example ill_formed_adjustment_throws :
  Single.applyAdjustment (Prim Undefined) (Single.constructor [])
  = (Throw TypeError,
     {| Single._adjustments := [Prim Undefined];
        Single._production := Number 0 |})
  /\ result Multiple.production
       (exec (Multiple.applyAdjustment (Prim Undefined)) (Multiple.constructor []))
     = Throw TypeError.
Proof. split; reflexivity. Qed.

(** ** Invariants *)

(** C5. [_initialProduction] is written by the constructor only: no call
    changes it, and after any sequence of calls it still is the argument
    the plan was built with. *)
Theorem initialProduction_never_mutated :
  (forall (p : Multiple.ProductionPlan) (c : Multiple.call),
     Multiple._initialProduction (exec (Multiple.invoke c) p)
     = Multiple._initialProduction p)
  /\
  (forall (args : list prim) (cs : list Multiple.call),
     Multiple._initialProduction (Multiple.after cs (Multiple.constructor args))
     = arg Undefined 0 args).
Proof.
  split.
  - intros p c.
    change (exec (Multiple.invoke c) p) with (Multiple.after [c] p).
    now rewrite multiple_after_state.
  - intros args cs. now rewrite multiple_after_state.
Qed.

(** C9. In every state the single-source class reaches, the stored
    [_production] is the sum of the amounts of [_adjustments], so that
    [production] and [calculatedProduction] read the same number. *)
Theorem single_stored_production_is_calculated
    (args : list value) (cs : list Single.call) :
  let p := Single.after cs (Single.constructor args) in
  Single._adjustments p = map obj (Single.applied cs)
  /\ Single._production p = Number (sigma (Single.applied cs))
  /\ result Single.calculatedProduction p = Normal (Single._production p)
  /\ result Single.production p = result Single.calculatedProduction p.
Proof.
  cbv zeta. rewrite single_after_state. simpl.
  rewrite fold_add_number.
  unfold result, Single.production, Single.calculatedProduction, bind, get, lift.
  simpl. rewrite reduce_sum_amount_obj. repeat split.
Qed.

(** ** Totality *)

(** C6. On a plan reached from the constructor by calls in the declared
    domain, every call completes normally: the exception branch is not
    taken. The constructors are total functions with no such branch. *)
Theorem operations_total :
  (forall (args : list prim) (cs : list Multiple.call) (c : Multiple.call),
     exists v : prim,
       result (Multiple.invoke c) (Multiple.after cs (Multiple.constructor args))
       = Normal v)
  /\
  (forall (args : list value) (cs : list Single.call) (c : Single.call),
     exists v : prim,
       result (Single.invoke c) (Single.after cs (Single.constructor args))
       = Normal v).
Proof.
  split; intros args cs c.
  - rewrite multiple_after_state. simpl. destruct c as [|a].
    + unfold result. simpl. rewrite multiple_production_eq.
      eexists. reflexivity.
    + eexists. reflexivity.
  - rewrite single_after_state. simpl. destruct c as [| |a].
    + eexists. reflexivity.
    + unfold result, Single.invoke, Single.calculatedProduction, bind, get, lift.
      simpl. rewrite reduce_sum_amount_obj. eexists. reflexivity.
    + eexists. reflexivity.
Qed.

(** ** Reads *)

Lemma repeat_call_pure {S A : Type} (c : M S A) (n : nat) (this : S) :
  exec c this = this ->
  repeat_call c n this = (repeat (result c this) n, this).
Proof.
  unfold exec, result. intros H. induction n as [|n IH]; simpl.
  - reflexivity.
  - destruct (c this) as [r this'] eqn:E. simpl in H. subst this'.
    rewrite IH. reflexivity.
Qed.

Lemma multiple_production_pure (p : Multiple.ProductionPlan) :
  exec Multiple.production p = p.
Proof.
  unfold exec, Multiple.production, bind, get, lift, ret. simpl.
  now destruct (reduce sum_amount (Multiple._adjustments p) (Number 0)).
Qed.

(** C7. Reading [production] leaves the plan as it was, in every state,
    and any number of consecutive reads all give the completion of the
    first; so do reads of [calculatedProduction]. *)
Theorem production_reads_idempotent :
  (forall (p : Multiple.ProductionPlan) (n : nat),
     exec Multiple.production p = p
     /\ repeat_call Multiple.production n p
        = (repeat (result Multiple.production p) n, p))
  /\
  (forall (p : Single.ProductionPlan) (n : nat),
     exec Single.production p = p
     /\ repeat_call Single.production n p
        = (repeat (result Single.production p) n, p))
  /\
  (forall (p : Single.ProductionPlan) (n : nat),
     exec Single.calculatedProduction p = p
     /\ repeat_call Single.calculatedProduction n p
        = (repeat (result Single.calculatedProduction p) n, p)).
Proof.
  repeat split.
  - apply multiple_production_pure.
  - apply repeat_call_pure, multiple_production_pure.
  - now apply repeat_call_pure.
  - now apply repeat_call_pure.
Qed.

(** ** The test suites *)

(** [src/single-source/index.test.js] *)
Example single_source_tests :
  result Single.production (Single.constructor []) = Normal (Number 0)
  /\ single_production_of [ {| amount := 10 |} ] = Normal (Number 10).
Proof. split; reflexivity. Qed.

(** [src/multiple-sources/index.test.js], and a baseline of 5 adjusted by
    -3 and 2. *)
Example multiple_sources_tests :
  result Multiple.production (Multiple.constructor [Number 10])
  = Normal (Number 10)
  /\ multiple_production_of 10 [ {| amount := 10 |} ] = Normal (Number 20)
  /\ multiple_production_of 5 [ {| amount := -3 |}; {| amount := 2 |} ]
     = Normal (Number 4).
Proof. repeat split. Qed.

(** ** The value read *)

(** C1. After any sequence of calls on a fresh plan, [production] reads
    the baseline plus the sum of the amounts of the adjustments applied so
    far, taken in the order of application, whatever the amounts are. In
    the single-source class the baseline is 0. *)
Theorem production_is_baseline_plus_sum :
  (forall (args : list prim) (cs : list Multiple.call),
     result Multiple.production (Multiple.after cs (Multiple.constructor args))
     = Normal (add (arg Undefined 0 args) (Number (sigma (Multiple.applied cs)))))
  /\
  (forall (args : list value) (cs : list Single.call),
     result Single.production (Single.after cs (Single.constructor args))
     = Normal (add (Number 0) (Number (sigma (Single.applied cs))))).
Proof.
  split; intros args cs.
  - apply multiple_production_after.
  - rewrite single_production_after. unfold add. simpl.
    now rewrite zero_plus_sigma.
Qed.

(** C4, as stated, fails: on the plan [new ProductionPlan()] the
    adjustments are empty, the stored baseline is [undefined], and
    [production] reads NaN. *)
Lemma multiple_omitted_baseline_reads_nan :
  let p := Multiple.constructor [] in
  Multiple._adjustments p = []
  /\ Multiple._initialProduction p = Undefined
  /\ result Multiple.production p = Normal (Number nan)
  /\ result Multiple.production p <> Normal (Multiple._initialProduction p).
Proof.
  repeat split. intros H. apply Normal_inj in H. discriminate H.
Qed.

(** A baseline of [-0] is not read back either: [-0 + 0] is [+0]. *)
Example negative_zero_baseline_reads_zero :
  result Multiple.production (Multiple.constructor [Number neg_zero])
  = Normal (Number 0)
  /\ 0%float <> neg_zero.
Proof. split; [reflexivity | apply zero_neq_neg_zero]. Qed.

(** C4, amended. On a plan without adjustments whose baseline is a
    number other than [-0], [production] completes normally and reads
    exactly that number. *)
Theorem empty_plan_reads_initialProduction
    (p : Multiple.ProductionPlan) (x : float) :
  Multiple._adjustments p = [] ->
  Multiple._initialProduction p = Number x ->
  x <> neg_zero ->
  result Multiple.production p = Normal (Number x).
Proof.
  destruct p as [init adjs]. simpl. intros -> -> Hx.
  unfold result, Multiple.production, bind, get, lift, ret, add. simpl.
  now rewrite float_add_zero_r.
Qed.

Lemma empty_plan_reads_initialProduction_witness :
  let p := Multiple.constructor [Number 10] in
  Multiple._adjustments p = []
  /\ Multiple._initialProduction p = Number 10
  /\ 10%float <> neg_zero
  /\ result Multiple.production p = Normal (Number 10).
Proof.
  assert (H10 : 10%float <> neg_zero).
  { intros H. apply (f_equal (fun x => PrimFloat.eqb x 10)) in H.
    vm_compute in H. discriminate H. }
  split; [reflexivity|]. split; [reflexivity|]. split; [exact H10|].
  apply (empty_plan_reads_initialProduction
           (Multiple.constructor [Number 10]) 10);
    [reflexivity | reflexivity | exact H10].
Defined.

(** ** Order of the adjustments *)

(** C8, as stated, fails: number addition rounds, so the total depends on
    the order. From baseline 0, the amounts 2^53, 1, -2^53 read 0 (2^53 + 1
    rounds to 2^53), and the same amounts as 2^53, -2^53, 1 read 1. *)
Lemma production_depends_on_order :
  let big := 9007199254740992%float in
  let l1 := [ {| amount := big |}; {| amount := 1 |}; {| amount := - big |} ] in
  let l2 := [ {| amount := big |}; {| amount := - big |}; {| amount := 1 |} ] in
  Permutation l1 l2
  /\ multiple_production_of 0 l1 = Normal (Number 0)
  /\ multiple_production_of 0 l2 = Normal (Number 1)
  /\ multiple_production_of 0 l1 <> multiple_production_of 0 l2
  /\ single_production_of l1 = Normal (Number 0)
  /\ single_production_of l2 = Normal (Number 1).
Proof.
  repeat split.
  - apply perm_skip, perm_swap.
  - intros H. apply Normal_inj, Number_inj in H.
    apply (f_equal (fun x => PrimFloat.eqb x 0)) in H.
    vm_compute in H. discriminate H.
Qed.

(** The same with the decimal amounts 0.1, 0.2 and 0.3 (written as the
    binary64 values these literals denote). *)
Example production_depends_on_order_decimal :
  let a := {| amount := 0x1.999999999999ap-4 |} in
  let b := {| amount := 0x1.999999999999ap-3 |} in
  let c := {| amount := 0x1.3333333333333p-2 |} in
  multiple_production_of 0 [a; b; c] = Normal (Number 0x1.3333333333334p-1)
  /\ multiple_production_of 0 [c; b; a] = Normal (Number 0x1.3333333333333p-1).
Proof. split; reflexivity. Qed.

(** C8, amended. For an integer baseline and integer amounts whose
    magnitudes add up to less than 2^53, every sum involved is exact:
    applying the amounts in any order to a fresh plan reads the same
    [production], the number holding the integer total. *)
Theorem production_order_independent_on_safe_integers
    (init : Z) (l1 l2 : list Z) :
  Permutation l1 l2 ->
  safe init l1 ->
  (multiple_production_of (of_int init) (map int_adjustment l1)
   = multiple_production_of (of_int init) (map int_adjustment l2)
   /\ multiple_production_of (of_int init) (map int_adjustment l1)
      = Normal (Number (of_int (init + Zsum l1))))
  /\
  (single_production_of (map int_adjustment l1)
   = single_production_of (map int_adjustment l2)
   /\ single_production_of (map int_adjustment l1)
      = Normal (Number (of_int (Zsum l1)))).
Proof.
  intros HP Hs.
  assert (Hs' : safe init l2).
  { unfold safe in *. now rewrite <- (magnitude_permutation l1 l2 HP). }
  destruct (production_of_safe_integers init l1 Hs) as [M1 S1].
  destruct (production_of_safe_integers init l2 Hs') as [M2 S2].
  rewrite M1, M2, S1, S2, (Zsum_permutation l1 l2 HP). repeat split.
Qed.

Lemma production_order_independent_on_safe_integers_witness :
  Permutation [-3; 2] [2; -3]
  /\ safe 5 [-3; 2]
  /\ multiple_production_of (of_int 5) (map int_adjustment [-3; 2])
     = multiple_production_of (of_int 5) (map int_adjustment [2; -3])
  /\ multiple_production_of (of_int 5) (map int_adjustment [-3; 2])
     = Normal (Number 4).
Proof.
  assert (HP : Permutation [-3; 2] [2; -3]) by apply perm_swap.
  assert (Hs : safe 5 [-3; 2]) by (unfold safe; simpl; lia).
  destruct (production_order_independent_on_safe_integers 5 [-3; 2] [2; -3] HP Hs)
    as [[HM HM'] _].
  split; [exact HP|]. split; [exact Hs|]. split; [exact HM | exact HM'].
Defined.

(** ** Beyond the declared domain: what is summed and what throws *)

Lemma fold_values_snoc (vs : list value) (v : value) (s : float) :
  fold_left (fun s v => (s + amount_number v)%float) (vs ++ [v]) s
  = (fold_left (fun s v => (s + amount_number v)%float) vs s + amount_number v)%float.
Proof. now rewrite fold_left_app. Qed.

(** The reduction of both classes on arbitrary values: it throws exactly
    when one of them is [undefined] or [null], and otherwise sums what
    each contributes. *)
Lemma reduce_sum_amount_values (vs : list value) (s : float) :
  reduce sum_amount vs (Number s)
  = if existsb nullish vs then Throw TypeError
    else Normal (Number (fold_left (fun s v => (s + amount_number v)%float) vs s)).
Proof.
  revert s; induction vs as [|v vs IH]; intros s.
  - reflexivity.
  - destruct v as [[| |x]|a]; try reflexivity.
    + cbn [reduce sum_amount get_amount existsb nullish orb]. apply IH.
    + cbn [reduce sum_amount get_amount existsb nullish orb]. apply IH.
Qed.



Lemma multiple_apply_values_state (vs : list value) (p : Multiple.ProductionPlan) :
  multiple_apply_values vs p
  = {| Multiple._initialProduction := Multiple._initialProduction p;
       Multiple._adjustments := Multiple._adjustments p ++ vs |}.
Proof.
  revert p; induction vs as [|v vs IH]; intros [init adjs].
  - simpl. now rewrite app_nil_r.
  - change (multiple_apply_values (v :: vs) ?q)
      with (multiple_apply_values vs (exec (Multiple.applyAdjustment v) q)).
    rewrite IH. simpl. now rewrite <- app_assoc.
Qed.








Lemma existsb_nullish_app (l1 l2 : list value) :
  existsb nullish (l1 ++ l2) = (existsb nullish l1 || existsb nullish l2)%bool.
Proof. apply existsb_app. Qed.

(** X5. [applyAdjustment] of the multiple-sources class never throws,
    whatever it is given, and only records its argument; once the
    argument was [undefined] or [null], every later read of [production]
    throws a TypeError, whatever is applied in between. *)
Theorem multiple_failure_is_deferred_and_permanent
    (p : Multiple.ProductionPlan) (v : value) (vs : list value) :
  nullish v = true ->
  result (Multiple.applyAdjustment v) p = Normal tt
  /\ Multiple._adjustments (multiple_apply_values (v :: vs) p)
     = Multiple._adjustments p ++ v :: vs
  /\ result Multiple.production (multiple_apply_values (v :: vs) p)
     = Throw TypeError.
Proof.
  intros Hv. rewrite multiple_apply_values_state.
  split; [reflexivity|]. split; [reflexivity|].
  unfold result, Multiple.production, bind, get, lift, ret.
  cbn [fst snd Multiple._adjustments Multiple._initialProduction].
  rewrite reduce_sum_amount_values, existsb_nullish_app.
  cbn [existsb]. rewrite Hv, orb_true_r. reflexivity.
Qed.

Lemma multiple_failure_is_deferred_and_permanent_witness :
  nullish (Prim Undefined) = true
  /\ result Multiple.production
       (multiple_apply_values [Prim Undefined; Object (Number 10)]
          (Multiple.constructor [Number 10]))
     = Throw TypeError.
Proof.
  split; [reflexivity|].
  apply (multiple_failure_is_deferred_and_permanent
           (Multiple.constructor [Number 10]) (Prim Undefined)
           [Object (Number 10)]).
  reflexivity.
Defined.

(** ** NaN, zeros and reads *)

Lemma Prim2SF_nan : Prim2SF nan = S754_nan.
Proof. reflexivity. Qed.

Lemma float_add_nan_l (x : float) : (nan + x)%float = nan.
Proof.
  apply Prim2SF_inj. rewrite add_spec, Prim2SF_nan. reflexivity.
Qed.


Lemma float_add_neg_zero_r (x : float) : (x + neg_zero)%float = x.
Proof.
  apply Prim2SF_inj. rewrite add_spec.
  change (Prim2SF neg_zero) with (S754_zero true).
  now destruct (Prim2SF x) as [[|]|[|]| |s m e].
Qed.

Lemma is_zero_inv (x : float) :
  is_zero x = true -> x = 0%float \/ x = neg_zero.
Proof.
  unfold is_zero. rewrite eqb_spec.
  change (Prim2SF zero) with (S754_zero false). intros H.
  destruct (Prim2SF x) as [[|]|[|]| |[|] m e] eqn:E; try discriminate H.
  - right. apply Prim2SF_inj. now rewrite E.
  - left. apply Prim2SF_inj. now rewrite E.
Qed.

(** Adding a zero of either sign to a number other than [-0] gives it
    back. *)
Lemma float_add_is_zero (s z : float) :
  s <> neg_zero -> is_zero z = true -> (s + z)%float = s.
Proof.
  intros Hs Hz. destruct (is_zero_inv z Hz) as [-> | ->].
  - now apply float_add_zero_r.
  - apply float_add_neg_zero_r.
Qed.

Lemma fold_amounts_nan (l : list Adjustment) :
  fold_left (fun s a => (s + amount a)%float) l nan = nan.
Proof.
  induction l as [|a l IH]; simpl.
  - reflexivity.
  - now rewrite float_add_nan_l.
Qed.



(** X6. A multiple-sources plan built without a baseline, or with one
    that converts to NaN, reads NaN after any sequence of calls: no
    adjustment brings [production] back to a number. *)
Theorem multiple_nan_baseline_is_permanent
    (args : list prim) (cs : list Multiple.call) :
  ToNumber (arg Undefined 0 args) = nan ->
  result Multiple.production (Multiple.after cs (Multiple.constructor args))
  = Normal (Number nan).
Proof.
  intros H. rewrite multiple_production_after. unfold add.
  now rewrite H, float_add_nan_l.
Qed.

Lemma multiple_nan_baseline_is_permanent_witness :
  ToNumber (arg Undefined 0 []) = nan
  /\ result Multiple.production
       (Multiple.after [Multiple.ApplyAdjustment {| amount := 10 |}]
          (Multiple.constructor []))
     = Normal (Number nan).
Proof.
  split; [reflexivity|].
  apply (multiple_nan_baseline_is_permanent []
           [Multiple.ApplyAdjustment {| amount := 10 |}]).
  reflexivity.
Defined.



(** X8. Built with baseline 0, the multiple-sources class reads what the
    single-source class reads after the same adjustments: the query
    [0 + sum] and the stored accumulator are the same number. *)
Theorem multiple_with_zero_baseline_is_single (l : list Adjustment) :
  multiple_production_of 0 l = single_production_of l.
Proof.
  unfold multiple_production_of, single_production_of.
  rewrite multiple_production_after, single_production_after.
  rewrite multiple_applied_map, single_applied_map.
  unfold add, arg. simpl. now rewrite zero_plus_sigma.
Qed.

Lemma fold_amounts_drop_zeros (l : list Adjustment) (s : float) :
  s <> neg_zero ->
  fold_left (fun s a => (s + amount a)%float)
    (filter (fun a => negb (zero_amount a)) l) s
  = fold_left (fun s a => (s + amount a)%float) l s.
Proof.
  revert s; induction l as [|a l IH]; intros s Hs.
  - reflexivity.
  - cbn [filter]. destruct (zero_amount a) eqn:Ez; cbn [negb fold_left].
    + rewrite (float_add_is_zero s (amount a) Hs Ez). now apply IH.
    + apply IH. now apply float_add_neg_zero.
Qed.

(** X9. Adjustments whose amount is [+0] or [-0] never change what
    [production] reads, in either class, wherever they are applied. *)
Theorem zero_adjustments_are_neutral (init : float) (l : list Adjustment) :
  multiple_production_of init (filter (fun a => negb (zero_amount a)) l)
  = multiple_production_of init l
  /\ single_production_of (filter (fun a => negb (zero_amount a)) l)
     = single_production_of l.
Proof.
  unfold multiple_production_of, single_production_of.
  rewrite !multiple_production_after, !single_production_after.
  rewrite !multiple_applied_map, !single_applied_map.
  unfold sigma.
  rewrite fold_amounts_drop_zeros by apply zero_neq_neg_zero.
  split; reflexivity.
Qed.

(** X10. Reads leave no trace: the plan after any sequence of calls is
    the plan after its [applyAdjustment] calls alone, from any starting
    state, in both classes ([calculatedProduction] included). *)
Theorem reads_leave_no_trace :
  (forall (cs : list Multiple.call) (p : Multiple.ProductionPlan),
     Multiple.after cs p
     = Multiple.after (map Multiple.ApplyAdjustment (Multiple.applied cs)) p)
  /\
  (forall (cs : list Single.call) (p : Single.ProductionPlan),
     Single.after cs p
     = Single.after (map Single.ApplyAdjustment (Single.applied cs)) p).
Proof.
  split; intros cs p.
  - now rewrite !multiple_after_state, multiple_applied_map.
  - now rewrite !single_after_state, single_applied_map.
Qed.

Lemma Zsum_app (l1 l2 : list Z) : Zsum (l1 ++ l2) = Zsum l1 + Zsum l2.
Proof. induction l1 as [|x l1 IH]; simpl; lia. Qed.

Lemma magnitude_app (l1 l2 : list Z) :
  magnitude (l1 ++ l2) = magnitude l1 + magnitude l2.
Proof. induction l1 as [|x l1 IH]; simpl; lia. Qed.

(** X11. Within the safe integers an adjustment is undone by its
    opposite: after integer adjustments [l], applying [a] and then [-a]
    reads the same [production] as before, in both classes. *)
Theorem opposite_adjustment_undoes (init : Z) (l : list Z) (a : Z) :
  safe init (l ++ [a; - a]) ->
  multiple_production_of (of_int init) (map int_adjustment (l ++ [a; - a]))
  = multiple_production_of (of_int init) (map int_adjustment l)
  /\ single_production_of (map int_adjustment (l ++ [a; - a]))
     = single_production_of (map int_adjustment l).
Proof.
  intros Hs.
  assert (Hl : safe init l).
  { unfold safe in *. rewrite magnitude_app in Hs.
    pose proof (magnitude_nonneg [a; - a]). lia. }
  destruct (production_of_safe_integers init _ Hs) as [M1 S1].
  destruct (production_of_safe_integers init _ Hl) as [M2 S2].
  rewrite M1, M2, S1, S2, Zsum_app. simpl.
  replace (Zsum l + (a + (- a + 0))) with (Zsum l) by lia.
  split; reflexivity.
Qed.

Lemma opposite_adjustment_undoes_witness :
  safe 5 ([2] ++ [7; - 7])
  /\ multiple_production_of (of_int 5) (map int_adjustment ([2] ++ [7; - 7]))
     = multiple_production_of (of_int 5) (map int_adjustment [2]).
Proof.
  assert (Hs : safe 5 ([2] ++ [7; - 7])) by (unfold safe; simpl; lia).
  split; [exact Hs|].
  apply (opposite_adjustment_undoes 5 [2] 7 Hs).
Defined.

(** Beyond the safe integers it need not: from 2^53, applying 1 and
    then -1 reads 2^53 - 1. *)
Example opposite_adjustment_need_not_undo :
  single_production_of [ {| amount := 9007199254740992 |} ]
  = Normal (Number 9007199254740992)
  /\ single_production_of
       [ {| amount := 9007199254740992 |}; {| amount := 1 |}; {| amount := -1 |} ]
     = Normal (Number 9007199254740991).
Proof. split; reflexivity. Qed.
